(** * bson/unmarshal.go: the decode dispatch layer

    A shallow embedding of [src/bson/unmarshal.go].  The file is a thin
    dispatcher: every public function builds a value reader, takes a
    [*Decoder] out of [decPool], calls [Reset], [SetContext] and [Decode] on
    it and puts it back.  The readers, the [Decoder] methods, the registry and
    the pool's [New] live in other files of the package; they are the fields
    of the class [Externals] below, and the dispatch functions are written
    once, for every implementation of that interface. *)

From Stdlib Require Import ZArith Strings.Ascii Strings.String Strings.Byte.
From stdpp Require Import base option list gmap strings.

Set Warnings "-register-all".

Open Scope Z_scope.
Open Scope nat_scope.

(** ** Go values *)

Definition addr := nat.

(** The types a destination variable can have.  [TM] is [primitive.M],
    [TSliceM] is [[]primitive.M], [TInterface] is [interface{}]. *)
Inductive gotype : Type :=
  | TBool
  | TInt
  | TString
  | TStruct (fields : list (string * gotype))
  | TM
  | TSliceM
  | TInterface.

Inductive gval : Type :=
  | VNil
  | VBool (b : bool)
  | VInt (n : Z)
  | VString (s : string)
  | VStruct (fields : list (string * gval))
  | VM (entries : list (string * gval))
  | VSliceM (items : list gval).

Fixpoint gotype_eqb (a b : gotype) : bool :=
  match a, b with
  | TBool, TBool | TInt, TInt | TString, TString => true
  | TM, TM | TSliceM, TSliceM | TInterface, TInterface => true
  | TStruct fa, TStruct fb =>
      (fix fields_eqb (fa fb : list (string * gotype)) : bool :=
         match fa, fb with
         | [], [] => true
         | (n, t) :: fa', (m, u) :: fb' =>
             String.eqb n m && gotype_eqb t u && fields_eqb fa' fb'
         | _, _ => false
         end) fa fb
  | _, _ => false
  end.

(** Go's assignability, on this universe of types: identical types, or any
    type to the empty interface. *)
Definition AssignableTo (x t : gotype) : bool :=
  gotype_eqb x t || gotype_eqb t TInterface.

(** A Go variable: its static type and its current value. *)
Record cell := Cell { ctype : gotype; cval : gval }.

(** An [interface{}] argument ([val], [res]): the nil interface, a value that
    is not a pointer, or a pointer (possibly a typed nil pointer) to a
    variable. *)
Inductive iface : Type :=
  | INil
  | IVal (t : gotype) (v : gval)
  | IPtr (p : option addr).

(** ** The [reflect] package, as far as line 150 uses it *)

Module reflect.

(** A [reflect.Value]. *)
Inductive Value : Type :=
  | Zero                            (* the zero Value *)
  | Direct (t : gotype) (v : gval)  (* a value that is not addressable *)
  | Pointer (p : option addr)       (* a value of kind Ptr *)
  | Var (a : addr).                 (* an addressable variable *)

Definition ValueOf (i : iface) : Value :=
  match i with
  | INil => Zero
  | IVal t v => Direct t v
  | IPtr p => Pointer p
  end.

(** [v.Elem()] panics ([None]) unless [v]'s kind is Interface or Ptr; on a
    nil pointer it returns the zero Value. *)
Definition Elem (v : Value) : option Value :=
  match v with
  | Pointer (Some a) => Some (Var a)
  | Pointer None => Some Zero
  | _ => None
  end.

(** The type and value [x] carries, when [x] is valid. *)
Definition contents (vars : gmap addr cell) (x : Value) : option (gotype * gval) :=
  match x with
  | Direct t v => Some (t, v)
  | Var a => c ← vars !! a; Some (ctype c, cval c)
  | _ => None
  end.

(** [v.Set(x)] panics ([None]) unless [v] is addressable, [x] is valid and
    [x]'s type is assignable to [v]'s type. *)
Definition Set_ (v x : Value) (vars : gmap addr cell) : option (gmap addr cell) :=
  match v with
  | Var a =>
      c ← vars !! a;
      '(tx, vx) ← contents vars x;
      if AssignableTo tx (ctype c)
      then Some (<[a := Cell (ctype c) vx]> vars)
      else None
  | _ => None
  end.

End reflect.

(** ** Memory *)

(** [vars] holds the caller's variables, [slots] the [reflect.Value] cells
    that [new(reflect.Value)] allocates. *)
Record memory := Memory {
  vars : gmap addr cell;
  slots : gmap addr reflect.Value
}.

(** ** The package's collaborators *)

Module bsoncodec.

(** [bsoncodec.DecodeContext], with the three fields this file sets; a
    composite literal leaves the fields it does not name at their zero
    value ([nil], [false]). *)
Record DecodeContext (R : Type) := {
  Registry : R;
  ValM : option addr;
  SetVal : bool
}.
Arguments Registry {R} _.
Arguments ValM {R} _.
Arguments SetVal {R} _.

End bsoncodec.

(** What [unmarshal.go] calls and does not define.  Go's [(T, error)]
    results are sums; an [error] result is [option error], [None] for [nil].
    [Decode] reaches memory through [val] and through the context's [ValM].
    The collaborators return: a panic inside one of them is not modelled. *)
Class Externals := {
  error : Type;
  registry : Type;
  DefaultRegistry : registry;
  ValueReader : Type;
  Decoder : Type;
  NewBSONDocumentReader : list Byte.byte → ValueReader;
  NewExtJSONValueReader : list Byte.byte → bool → ValueReader + error;
  (** [decPool.New] *)
  newDecoder : Decoder;
  (** which idle Decoder [sync.Pool.Get] hands out, if any *)
  pick : list Decoder → option nat;
  Reset : Decoder → ValueReader → Decoder * option error;
  SetContext : Decoder → bsoncodec.DecodeContext registry → Decoder * option error;
  Decode : Decoder → iface → memory → Decoder * memory * option error
}.

(** How a Go call ends: it returns, or it panics. *)
Inductive result (A : Type) : Type :=
  | Ok (a : A)
  | Panic.
Arguments Ok {A} _.
Arguments Panic {A}.

Section Dispatch.

Context {E : Externals}.

Definition DecodeContext := bsoncodec.DecodeContext registry.

(** ** Calls, as they happen *)

(** Every call records what it was given and what it returned; [Decode]
    also records the memory it left. *)
Inductive event : Type :=
  | EvNewBSONDocumentReader (data : list Byte.byte)
  | EvNewExtJSONValueReader (data : list Byte.byte) (canonical : bool)
                            (err : option error)
  | EvGet (dec : addr)
  | EvReset (dec : addr) (vr : ValueReader) (err : option error)
  | EvSetContext (dec : addr) (dc : DecodeContext) (err : option error)
  | EvDecode (dec : addr) (val : iface) (m : memory) (err : option error)
  | EvSet (v x : reflect.Value) (ok : bool)
  | EvPut (dec : addr).

(** ** The state a call runs in *)

(** [pool] is [decPool]'s free list; [held] are the Decoders that are
    checked out, by the address the holder knows them by; [trace] lists the
    calls made so far, oldest first. *)
Record world := World {
  mem : memory;
  held : gmap addr Decoder;
  pool : list Decoder;
  trace : list event
}.

Definition set_mem (m : memory) (w : world) : world :=
  let 'World _ h p t := w in World m h p t.

Definition set_held (h : gmap addr Decoder) (w : world) : world :=
  let 'World m _ p t := w in World m h p t.

Definition set_pool (p : list Decoder) (w : world) : world :=
  let 'World m h _ t := w in World m h p t.

Definition log (e : event) (w : world) : world :=
  let 'World m h p t := w in World m h p (t ++ [e]).

(** ** Go computations: state, and panics *)

Definition Go (A : Type) : Type := world → result A * world.

Definition ret {A} (a : A) : Go A := λ w, (Ok a, w).

Definition bind {A B} (m : Go A) (k : A → Go B) : Go B :=
  λ w, match m w with
       | (Ok a, w') => k a w'
       | (Panic, w') => (Panic, w')
       end.

(** [defer d; body]: [d] runs when [body] returns and when it panics. *)
Definition defer {A} (d : Go unit) (body : Go A) : Go A :=
  λ w, let '(r, w') := body w in
       match d w' with
       | (Ok _, w'') => (r, w'')
       | (Panic, w'') => (Panic, w'')
       end.

Notation "'let*' x ':=' m 'in' k" := (bind m (λ x, k))
  (at level 10, x name, m at level 100, k at level 200, only parsing).

(** ** The calls the dispatch functions make *)

Definition bsonrw_NewBSONDocumentReader (data : list Byte.byte) : Go ValueReader :=
  λ w, (Ok (NewBSONDocumentReader data), log (EvNewBSONDocumentReader data) w).

Definition err_of {A} (r : A + error) : option error :=
  match r with inl _ => None | inr e => Some e end.

Definition bsonrw_NewExtJSONValueReader (data : list Byte.byte) (canonical : bool)
  : Go (ValueReader + error) :=
  λ w, let r := NewExtJSONValueReader data canonical in
       (Ok r, log (EvNewExtJSONValueReader data canonical (err_of r)) w).

(** [sync.Pool.Get]: an idle Decoder of the pool's choosing, or a new one
    from [New] when the pool gives none. *)
Definition checkout (p : list Decoder) : Decoder * list Decoder :=
  default (newDecoder, p) (i ← pick p; d ← p !! i; Some (d, delete i p)).

Definition decPool_Get : Go addr :=
  λ w, let '(d, p) := checkout (pool w) in
       let a := fresh (dom (held w)) in
       (Ok a, log (EvGet a) (set_pool p (set_held (<[a := d]> (held w)) w))).

(** [sync.Pool.Put] *)
Definition decPool_Put (a : addr) : Go unit :=
  λ w, match held w !! a with
       | Some d =>
           (Ok tt,
            log (EvPut a) (set_pool (d :: pool w) (set_held (delete a (held w)) w)))
       | None => (Ok tt, log (EvPut a) w)
       end.

(** A method call on [dec]; calling through a pointer that is no Decoder's
    is a nil dereference. *)
Definition Decoder_Reset (dec : addr) (vr : ValueReader) : Go (option error) :=
  λ w, match held w !! dec with
       | Some d =>
           let '(d', err) := Reset d vr in
           (Ok err, log (EvReset dec vr err) (set_held (<[dec := d']> (held w)) w))
       | None => (Panic, w)
       end.

Definition Decoder_SetContext (dec : addr) (dc : DecodeContext) : Go (option error) :=
  λ w, match held w !! dec with
       | Some d =>
           let '(d', err) := SetContext d dc in
           (Ok err, log (EvSetContext dec dc err) (set_held (<[dec := d']> (held w)) w))
       | None => (Panic, w)
       end.

Definition Decoder_Decode (dec : addr) (val : iface) : Go (option error) :=
  λ w, match held w !! dec with
       | Some d =>
           let '(d', m, err) := Decode d val (mem w) in
           (Ok err, log (EvDecode dec val m err)
                      (set_mem m (set_held (<[dec := d']> (held w)) w)))
       | None => (Panic, w)
       end.

(** [new(reflect.Value)] *)
Definition new_Value : Go addr :=
  λ w, let a := fresh (dom (slots (mem w))) in
       (Ok a,
        set_mem (Memory (vars (mem w)) (<[a := reflect.Zero]> (slots (mem w)))) w).

(** [*vM] *)
Definition load_Value (vM : addr) : Go reflect.Value :=
  λ w, match slots (mem w) !! vM with
       | Some x => (Ok x, w)
       | None => (Panic, w)
       end.

Definition reflect_Elem (v : reflect.Value) : Go reflect.Value :=
  λ w, match reflect.Elem v with
       | Some v' => (Ok v', w)
       | None => (Panic, w)
       end.

Definition reflect_Set (v x : reflect.Value) : Go unit :=
  λ w, match reflect.Set_ v x (vars (mem w)) with
       | Some vs =>
           (Ok tt, log (EvSet v x true) (set_mem (Memory vs (slots (mem w))) w))
       | None => (Panic, log (EvSet v x false) w)
       end.

(** ** unmarshal.go *)

Definition unmarshalFromReader (dc : DecodeContext) (vr : ValueReader) (val : iface)
  : Go (option error) :=
  let* dec := decPool_Get in
  defer (decPool_Put dec) (
    let* err := Decoder_Reset dec vr in
    if err is Some _ then ret err else
    let* err := Decoder_SetContext dec dc in
    if err is Some _ then ret err else
    Decoder_Decode dec val).

Definition UnmarshalWithRegistry (r : registry) (data : list Byte.byte) (val : iface)
  : Go (option error) :=
  let* vr := bsonrw_NewBSONDocumentReader data in
  unmarshalFromReader
    {| bsoncodec.Registry := r; bsoncodec.ValM := None; bsoncodec.SetVal := false |}
    vr val.

Definition Unmarshal (data : list Byte.byte) (val : iface) : Go (option error) :=
  UnmarshalWithRegistry DefaultRegistry data val.

Definition UnmarshalWithContext (dc : DecodeContext) (data : list Byte.byte) (val : iface)
  : Go (option error) :=
  let* vr := bsonrw_NewBSONDocumentReader data in
  unmarshalFromReader dc vr val.

Definition UnmarshalExtJSONWithRegistry (r : registry) (data : list Byte.byte)
    (canonical : bool) (val : iface) : Go (option error) :=
  let* ejvr_err := bsonrw_NewExtJSONValueReader data canonical in
  match ejvr_err with
  | inr err => ret (Some err)
  | inl ejvr =>
      unmarshalFromReader
        {| bsoncodec.Registry := r; bsoncodec.ValM := None; bsoncodec.SetVal := false |}
        ejvr val
  end.

Definition UnmarshalExtJSON (data : list Byte.byte) (canonical : bool) (val : iface)
  : Go (option error) :=
  UnmarshalExtJSONWithRegistry DefaultRegistry data canonical val.

Definition UnmarshalExtJSONWithContext (dc : DecodeContext) (data : list Byte.byte)
    (canonical : bool) (val : iface) : Go (option error) :=
  let* ejvr_err := bsonrw_NewExtJSONValueReader data canonical in
  match ejvr_err with
  | inr err => ret (Some err)
  | inl ejvr => unmarshalFromReader dc ejvr val
  end.

Definition UnmarshalExtJSONWithRes (data : list Byte.byte) (canonical : bool)
    (val res : iface) : Go (option error) :=
  let* ejvr_err := bsonrw_NewExtJSONValueReader data canonical in
  match ejvr_err with
  | inr err => ret (Some err)
  | inl ejvr =>
      let* dec := decPool_Get in
      defer (decPool_Put dec) (
        let* err := Decoder_Reset dec ejvr in
        if err is Some _ then ret err else
        let* vM := new_Value in
        let* err := Decoder_SetContext dec
          {| bsoncodec.Registry := DefaultRegistry;
             bsoncodec.ValM := Some vM;
             bsoncodec.SetVal := true |} in
        if err is Some _ then ret err else
        let* err := Decoder_Decode dec val in
        if err is Some _ then ret err else
        let* target := reflect_Elem (reflect.ValueOf res) in
        let* x := load_Value vM in
        let* _ := reflect_Set target x in
        ret err)
  end.

End Dispatch.

(** * The collaborators, from the spec

    The claims that speak of what the readers and the Decoder do (which
    inputs a reader rejects, what [Decode] makes of a destination, what the
    dual-output capture holds) are about code of the package that is not in
    [unmarshal.go].  [SpecModel] is an implementation of [Externals] written
    from the specification, sections 3, 4 and 7. *)

Module SpecModel.

(** Modelled from the spec: the error taxonomy of section 7 (the Decoder's
    and the readers' errors, which [unmarshal.go] only passes on).  The
    decode failures of section 7 are told apart: no rule in the registry,
    a rule rejecting a node, a structurally invalid source. *)
Inductive error : Type :=
  | ErrInvalidDestination
  | ErrMalformedInput
  | ErrContextBinding
  | ErrNoRule
  | ErrTypeMismatch
  | ErrInvalidStream.

(** Modelled from the spec: what a Value Reader is a cursor over (section
    4.1: container boundaries, scalar values, field names). *)
Inductive node : Type :=
  | NNull
  | NBool (b : bool)
  | NInt (n : Z)
  | NString (s : string)
  | NDoc (members : list (string * node))
  | NArr (items : list node).

(** ** The extended-JSON tokenizer *)

Definition quote : ascii := "034"%char.
Definition backslash : ascii := "092"%char.

Definition is_space (c : ascii) : bool :=
  Ascii.eqb c " " || Ascii.eqb c "009" || Ascii.eqb c "010" || Ascii.eqb c "013".

Definition digit_of (c : ascii) : option Z :=
  let n := Z.of_N (N_of_ascii c) in
  if ((48 <=? n) && (n <=? 57))%Z then Some (n - 48)%Z else None.

Fixpoint skip_space (s : list ascii) : list ascii :=
  match s with
  | c :: r => if is_space c then skip_space r else s
  | [] => []
  end.

Fixpoint read_digits (s : list ascii) (acc : Z) : Z * list ascii :=
  match s with
  | c :: r =>
      match digit_of c with
      | Some d => read_digits r (10 * acc + d)%Z
      | None => (acc, s)
      end
  | [] => (acc, [])
  end.

Definition read_number (s : list ascii) : option (Z * list ascii) :=
  match s with
  | c :: r =>
      if Ascii.eqb c "-"
      then match r with
           | c' :: _ =>
               if digit_of c' is Some _
               then let '(n, r') := read_digits r 0 in Some ((- n)%Z, r')
               else None
           | [] => None
           end
      else if digit_of c is Some _ then Some (read_digits s 0) else None
  | [] => None
  end.

(** The rest of a string literal, after its opening quote; [None] when
    the literal is not terminated. *)
Fixpoint read_string (s : list ascii) (acc : list ascii) : option (string * list ascii) :=
  match s with
  | [] => None
  | c :: r =>
      if Ascii.eqb c quote then Some (string_of_list_ascii (rev acc), r)
      else if Ascii.eqb c backslash then
        match r with
        | e :: r' =>
            if Ascii.eqb e quote || Ascii.eqb e backslash || Ascii.eqb e "/"
            then read_string r' (e :: acc)
            else None
        | [] => None
        end
      else read_string r (c :: acc)
  end.

Fixpoint strip_prefix (p s : list ascii) : option (list ascii) :=
  match p, s with
  | [], _ => Some s
  | a :: p', b :: s' => if Ascii.eqb a b then strip_prefix p' s' else None
  | _ :: _, [] => None
  end.

Definition read_literal (s : list ascii) : option (node * list ascii) :=
  match strip_prefix (list_ascii_of_string "true") s with
  | Some r => Some (NBool true, r)
  | None =>
      match strip_prefix (list_ascii_of_string "false") s with
      | Some r => Some (NBool false, r)
      | None =>
          match strip_prefix (list_ascii_of_string "null") s with
          | Some r => Some (NNull, r)
          | None => '(n, r) ← read_number s; Some (NInt n, r)
          end
      end
  end.

Fixpoint read_value (fuel : nat) (s : list ascii) : option (node * list ascii) :=
  match fuel with
  | 0 => None
  | S fuel =>
      match skip_space s with
      | [] => None
      | c :: r =>
          if Ascii.eqb c "{" then
            match skip_space r with
            | c' :: r' =>
                if Ascii.eqb c' "}" then Some (NDoc [], r')
                else '(ms, r'') ← read_members fuel r; Some (NDoc ms, r'')
            | [] => None
            end
          else if Ascii.eqb c "[" then
            match skip_space r with
            | c' :: r' =>
                if Ascii.eqb c' "]" then Some (NArr [], r')
                else '(xs, r'') ← read_items fuel r; Some (NArr xs, r'')
            | [] => None
            end
          else if Ascii.eqb c quote then
            '(str, r') ← read_string r []; Some (NString str, r')
          else read_literal (c :: r)
      end
  end
with read_members (fuel : nat) (s : list ascii)
     : option (list (string * node) * list ascii) :=
  match fuel with
  | 0 => None
  | S fuel =>
      match skip_space s with
      | c :: r =>
          if Ascii.eqb c quote then
            '(k, r1) ← read_string r [];
            match skip_space r1 with
            | c1 :: r2 =>
                if Ascii.eqb c1 ":" then
                  '(v, r3) ← read_value fuel r2;
                  match skip_space r3 with
                  | c3 :: r4 =>
                      if Ascii.eqb c3 "," then
                        '(ms, r5) ← read_members fuel r4; Some ((k, v) :: ms, r5)
                      else if Ascii.eqb c3 "}" then Some ([(k, v)], r4)
                      else None
                  | [] => None
                  end
                else None
            | [] => None
            end
          else None
      | [] => None
      end
  end
with read_items (fuel : nat) (s : list ascii) : option (list node * list ascii) :=
  match fuel with
  | 0 => None
  | S fuel =>
      '(v, r1) ← read_value fuel s;
      match skip_space r1 with
      | c :: r2 =>
          if Ascii.eqb c "," then
            '(xs, r3) ← read_items fuel r2; Some (v :: xs, r3)
          else if Ascii.eqb c "]" then Some ([v], r2)
          else None
      | [] => None
      end
  end.

(** Modelled from the spec: the extended-JSON tokenizer, which the spec
    names and leaves out, for objects, arrays, strings, integers, [true],
    [false] and [null].  The input is one value and white space; an empty
    or truncated input, a leading byte that starts no value and a literal
    that is not terminated are malformed. *)
Definition tokenize_extjson (data : list Byte.byte) : option node :=
  let s := map ascii_of_byte data in
  '(n, r) ← read_value (S (length s)) s;
  if skip_space r is [] then Some n else None.

(** ** The binary tokenizer *)

Definition le32 (b0 b1 b2 b3 : Z) : Z :=
  let u := (b0 + 256 * b1 + 65536 * b2 + 16777216 * b3)%Z in
  if (u <? 2147483648)%Z then u else (u - 4294967296)%Z.

Definition read_i32 (s : list Z) : option (Z * list Z) :=
  match s with
  | b0 :: b1 :: b2 :: b3 :: r => Some (le32 b0 b1 b2 b3, r)
  | _ => None
  end.

Definition read_i64 (s : list Z) : option (Z * list Z) :=
  match s with
  | b0 :: b1 :: b2 :: b3 :: b4 :: b5 :: b6 :: b7 :: r =>
      let lo := (b0 + 256 * b1 + 65536 * b2 + 16777216 * b3)%Z in
      Some ((lo + 4294967296 * le32 b4 b5 b6 b7)%Z, r)
  | _ => None
  end.

Definition ascii_of_Z (b : Z) : ascii := ascii_of_N (Z.to_N b).

(** A name: bytes up to the first zero byte. *)
Fixpoint read_cstring (s : list Z) (acc : list ascii) : option (string * list Z) :=
  match s with
  | [] => None
  | b :: r =>
      if (b =? 0)%Z then Some (string_of_list_ascii (rev acc), r)
      else read_cstring r (ascii_of_Z b :: acc)
  end.

(** A string value: its length (counting the closing zero byte), its bytes,
    a zero byte. *)
Definition read_bstring (s : list Z) : option (string * list Z) :=
  '(n, r) ← read_i32 s;
  if (n <? 1)%Z then None else
  let k := Z.to_nat (n - 1) in
  match drop k r with
  | b :: r' =>
      if (b =? 0)%Z
      then Some (string_of_list_ascii (map ascii_of_Z (take k r)), r')
      else None
  | [] => None
  end.

Fixpoint read_document (fuel : nat) (s : list Z)
  : option (list (string * node) * list Z) :=
  match fuel with
  | 0 => None
  | S fuel =>
      '(n, r) ← read_i32 s;
      '(ms, r') ← read_elements fuel r;
      if (Z.of_nat (length s - length r') =? n)%Z then Some (ms, r') else None
  end
with read_elements (fuel : nat) (s : list Z)
     : option (list (string * node) * list Z) :=
  match fuel with
  | 0 => None
  | S fuel =>
      match s with
      | [] => None
      | t :: r =>
          if (t =? 0)%Z then Some ([], r) else
          '(k, r1) ← read_cstring r [];
          '(v, r2) ←
            (if (t =? 2)%Z then '(x, r2) ← read_bstring r1; Some (NString x, r2)
             else if (t =? 3)%Z then
               '(ms, r2) ← read_document fuel r1; Some (NDoc ms, r2)
             else if (t =? 4)%Z then
               '(ms, r2) ← read_document fuel r1; Some (NArr (map snd ms), r2)
             else if (t =? 8)%Z then
               match r1 with
               | b :: r2 =>
                   if (b =? 0)%Z then Some (NBool false, r2)
                   else if (b =? 1)%Z then Some (NBool true, r2)
                   else None
               | [] => None
               end
             else if (t =? 10)%Z then Some (NNull, r1)
             else if (t =? 16)%Z then '(x, r2) ← read_i32 r1; Some (NInt x, r2)
             else if (t =? 18)%Z then '(x, r2) ← read_i64 r1; Some (NInt x, r2)
             else None);
          '(ms, r3) ← read_elements fuel r2;
          Some ((k, v) :: ms, r3)
      end
  end.

(** Modelled from the spec: the binary tokenizer, which the spec names and
    leaves out.  It reads the BSON layout (a length, the elements as type
    byte, name and value, a closing zero byte) for strings, documents,
    arrays, booleans, null and the two integer widths. *)
Definition tokenize_bson (data : list Byte.byte) : option node :=
  let s := map (λ b, Z.of_N (Byte.to_N b)) data in
  '(ms, r) ← read_document (S (length s)) s;
  if r is [] then Some (NDoc ms) else None.

(** ** Readers *)

(** Modelled from the spec: the two Value Readers of section 4.1.  The
    binary reader is built from the buffer and reads none of it until
    traversal begins; the extended-JSON reader is built from the stream
    and the [canonical] flag, and its construction reads the stream.  A
    reader is a forward-only cursor over one document: once traversed it
    is [Spent]. *)
Inductive reader : Type :=
  | Unread (buf : list Byte.byte)
  | Tokens (doc : node) (canonical : bool)
  | Spent.

Definition NewBSONDocumentReader (data : list Byte.byte) : reader := Unread data.

(** The literal forms the [canonical] flag selects between are the
    tokenizer's; the flag is kept and the relaxed forms are read under
    both settings. *)
Definition NewExtJSONValueReader (data : list Byte.byte) (canonical : bool)
  : reader + error :=
  match tokenize_extjson data with
  | Some doc => inl (Tokens doc canonical)
  | None => inr ErrMalformedInput
  end.

(** The document under the cursor; [None] when the source is structurally
    invalid or the cursor has been used up. *)
Definition document_of (r : reader) : option node :=
  match r with
  | Unread buf => tokenize_bson buf
  | Tokens doc _ => Some doc
  | Spent => None
  end.

(** ** Registry *)

(** Modelled from the spec: the Codec Registry of section 3, a mapping
    from type descriptors to decoding rules.  The rules themselves are the
    built-in ones of [decode] below; the registry says which type
    descriptors have one. *)
Inductive kind : Type :=
  | KBool | KInt | KString | KStruct | KM | KSliceM | KInterface.

Definition kind_eqb (a b : kind) : bool :=
  match a, b with
  | KBool, KBool | KInt, KInt | KString, KString | KStruct, KStruct
  | KM, KM | KSliceM, KSliceM | KInterface, KInterface => true
  | _, _ => false
  end.

Definition registry := list kind.

Definition DefaultRegistry : registry :=
  [KBool; KInt; KString; KStruct; KM; KSliceM; KInterface].

Definition kind_of (t : gotype) : kind :=
  match t with
  | TBool => KBool
  | TInt => KInt
  | TString => KString
  | TStruct _ => KStruct
  | TM => KM
  | TSliceM => KSliceM
  | TInterface => KInterface
  end.

Definition LookupDecoder (r : registry) (t : gotype) : bool :=
  existsb (kind_eqb (kind_of t)) r.

(** ** The decode engine *)

Fixpoint zero (t : gotype) : gval :=
  match t with
  | TBool => VBool false
  | TInt => VInt 0
  | TString => VString EmptyString
  | TStruct fs => VStruct (map (λ f, (fst f, zero (snd f))) fs)
  | TM => VM []
  | TSliceM => VSliceM []
  | TInterface => VNil
  end.

(** The generic representation of a node. *)
Fixpoint generic (n : node) : gval :=
  match n with
  | NNull => VNil
  | NBool b => VBool b
  | NInt z => VInt z
  | NString s => VString s
  | NDoc ms => VM (map (λ m, (fst m, generic (snd m))) ms)
  | NArr xs => VSliceM (map generic xs)
  end.

Definition type_of_generic (g : gval) : gotype :=
  match g with
  | VNil => TInterface
  | VBool _ => TBool
  | VInt _ => TInt
  | VString _ => TString
  | VStruct fs => TStruct []
  | VM _ => TM
  | VSliceM _ => TSliceM
  end.

Definition lower_ascii (c : ascii) : ascii :=
  let n := N_of_ascii c in
  if ((65 <=? n) && (n <=? 90))%N then ascii_of_N (n + 32) else c.

Fixpoint lower (s : string) : string :=
  match s with
  | EmptyString => EmptyString
  | String c r => String (lower_ascii c) (lower r)
  end.

(** The field a document key fills: the one whose name, in lower case, is
    the key (scenario 6 of section 8 fills [A] from [a] and [B] from [b]). *)
Fixpoint find_field (k : string) (fs : list (string * gotype)) : option (string * gotype) :=
  match fs with
  | [] => None
  | (name, t) :: fs' =>
      if String.eqb (lower name) k then Some (name, t) else find_field k fs'
  end.

Fixpoint field_value (name : string) (t : gotype) (cf : list (string * gval)) : gval :=
  match cf with
  | [] => zero t
  | (n, v) :: cf' => if String.eqb n name then v else field_value name t cf'
  end.

Fixpoint set_field (name : string) (v : gval) (cf : list (string * gval))
  : list (string * gval) :=
  match cf with
  | [] => [(name, v)]
  | (n, x) :: cf' =>
      if String.eqb n name then (n, v) :: cf' else (n, x) :: set_field name v cf'
  end.

Definition is_doc (n : node) : bool := if n is NDoc _ then true else false.

(** Modelled from the spec: the Decoder's walk over the value tree
    (sections 2 and 4.2).  At each node the registry is consulted for the
    destination's type; the node is decoded into the destination, and its
    generic representation goes to the capture alongside, in the same pass.
    [decode reg t cur n] is the destination's new value (partially filled
    when a node fails, section 7), the capture, and the error. *)
Fixpoint decode (reg : registry) (t : gotype) (cur : gval) (n : node) {struct n}
  : gval * gval * option error :=
  if negb (LookupDecoder reg t) then (cur, VNil, Some ErrNoRule) else
  match t, n with
  | TBool, NBool b => (VBool b, VBool b, None)
  | TInt, NInt z => (VInt z, VInt z, None)
  | TString, NString s => (VString s, VString s, None)
  | TStruct fs, NDoc ms =>
      (fix members (ms : list (string * node)) (cf cap : list (string * gval))
         : gval * gval * option error :=
         match ms with
         | [] => (VStruct cf, VM cap, None)
         | (k, x) :: ms' =>
             match find_field k fs with
             | None => members ms' cf cap
             | Some (name, ft) =>
                 let '(v, g, err) := decode reg ft (field_value name ft cf) x in
                 let cf' := set_field name v cf in
                 match err with
                 | Some e => (VStruct cf', VM cap, Some e)
                 | None => members ms' cf' (cap ++ [(k, g)])
                 end
             end
         end) ms (if cur is VStruct cf then cf else []) []
  | TM, NDoc _ => (generic n, generic n, None)
  | TSliceM, NArr xs =>
      if forallb is_doc xs then (generic n, generic n, None)
      else (cur, VNil, Some ErrTypeMismatch)
  | TInterface, _ => (generic n, generic n, None)
  | _, _ => (cur, VNil, Some ErrTypeMismatch)
  end.

(** ** The Decoder *)

(** Modelled from the spec: the Decoder of section 3, its bound reader and
    its bound context. *)
Record Decoder := {
  vr : option reader;
  dc : bsoncodec.DecodeContext registry
}.

(** [new(Decoder)]: no reader, the zero context. *)
Definition newDecoder : Decoder :=
  {| vr := None;
     dc := {| bsoncodec.Registry := []; bsoncodec.ValM := None;
              bsoncodec.SetVal := false |} |}.

(** Modelled from the spec: the pool is a free list (section 2); the
    Decoder last put back is the next one handed out. *)
Definition pick (p : list Decoder) : option nat :=
  if p is [] then None else Some 0.

(** Modelled from the spec: [reset(reader)] of section 4.3 rebinds the
    reader; the two readers of section 4.1 are both compatible, so it does
    not fail. *)
Definition Reset (d : Decoder) (r : reader) : Decoder * option error :=
  ({| vr := Some r; dc := dc d |}, None).

(** Modelled from the spec: [bindContext(ctx)] of section 4.3 fails on a
    context with dual-output enabled and no capture slot. *)
Definition SetContext (d : Decoder) (c : bsoncodec.DecodeContext registry)
  : Decoder * option error :=
  if bsoncodec.SetVal c && bool_decide (bsoncodec.ValM c = None)
  then (d, Some ErrContextBinding)
  else ({| vr := vr d; dc := c |}, None).

(** Where the capture goes: the context's slot, when dual-output is on. *)
Definition capture (c : bsoncodec.DecodeContext registry) (g : gval)
    (sl : gmap addr reflect.Value) : gmap addr reflect.Value :=
  if bsoncodec.SetVal c
  then match bsoncodec.ValM c with
       | Some vM => <[vM := reflect.Direct (type_of_generic g) g]> sl
       | None => sl
       end
  else sl.

(** Modelled from the spec: [decode(target)] of section 4.3.  A target
    that is nil or no reference is rejected before any reading begins
    (section 7); then the document is read off the bound reader, a
    structurally invalid source being an error, and decoded into the
    target in one pass. *)
Definition Decode (d : Decoder) (val : iface) (m : memory)
  : Decoder * memory * option error :=
  match val with
  | IPtr (Some a) =>
      match vars m !! a with
      | None => (d, m, Some ErrInvalidDestination)
      | Some c =>
          let d' := {| vr := Some Spent; dc := dc d |} in
          match vr d ≫= document_of with
          | None => (d', m, Some ErrInvalidStream)
          | Some doc =>
              let '(v, g, err) :=
                decode (bsoncodec.Registry (dc d)) (ctype c) (cval c) doc in
              (d',
               Memory (<[a := Cell (ctype c) v]> (vars m)) (capture (dc d) g (slots m)),
               err)
          end
      end
  | _ => (d, m, Some ErrInvalidDestination)
  end.

Definition externals : Externals :=
  Build_Externals error registry DefaultRegistry reader Decoder
    NewBSONDocumentReader NewExtJSONValueReader newDecoder pick
    Reset SetContext Decode.

(** ** Inputs *)

(** Extended JSON written with single quotes for the double ones. *)
Definition json (s : string) : list Byte.byte :=
  map (λ c, byte_of_ascii (if Ascii.eqb c "'" then quote else c))
      (list_ascii_of_string s).

(** A world with the given variables and nothing else: no slot, no Decoder
    checked out, an empty pool, no call made. *)
Definition world_of (vs : list (addr * cell)) : @world externals :=
  World (Memory (list_to_map vs) ∅) ∅ [] [].

(** Scenario 6 of section 8: the input, the typed destination's shape
    [{A string; B struct{B int}}], and a world where variable 0 is such a
    destination and variable 1 an empty [primitive.M]. *)
Definition scenario_input : list Byte.byte := json "{'a': '123', 'b': {'b': 123}}".

Definition scenario_type : gotype :=
  TStruct [("A"%string, TString); ("B"%string, TStruct [("B"%string, TInt)])].

Definition scenario_world : @world externals :=
  world_of [(0, Cell scenario_type (zero scenario_type)); (1, Cell TM (VM []))].

(** ** What the invalid-destination claim speaks of *)




End SpecModel.

(** * What the claims speak of *)

Section Shapes.

Context {E : Externals}.

(** The calls made between the worlds [w] and [w']. *)
Definition calls (w w' : world) : list event :=
  drop (length (trace w)) (trace w').

(** The world a call that used the pooled Decoder leaves: memory [m], the
    Decoder, now [d], on top of what [Get] left of the pool, and the calls
    [t] made. *)
Definition after (w : world) (m : memory) (d : Decoder) (p : list Decoder)
    (t : list event) : world :=
  World m (held w) (d :: p) (trace w ++ t).

(** The context of the functions that take a registry, and the one
    [UnmarshalExtJSONWithRes] builds around the slot [vM]. *)
Definition registry_context (r : registry) : DecodeContext :=
  {| bsoncodec.Registry := r; bsoncodec.ValM := None; bsoncodec.SetVal := false |}.

Definition capture_context (vM : addr) : DecodeContext :=
  {| bsoncodec.Registry := DefaultRegistry;
     bsoncodec.ValM := Some vM;
     bsoncodec.SetVal := true |}.

(** One pass through a pooled Decoder: the calls made once the reader [vr]
    is built, and what is returned.  The first error ends the pass, the
    release apart. *)
Inductive pipeline (a : addr) (vr : ValueReader) (dc : DecodeContext) (val : iface)
  : list event → result (option error) → Prop :=
  | pipeline_Reset e :
      pipeline a vr dc val
        [EvGet a; EvReset a vr (Some e); EvPut a] (Ok (Some e))
  | pipeline_SetContext e :
      pipeline a vr dc val
        [EvGet a; EvReset a vr None; EvSetContext a dc (Some e); EvPut a] (Ok (Some e))
  | pipeline_Decode m err :
      pipeline a vr dc val
        [EvGet a; EvReset a vr None; EvSetContext a dc None; EvDecode a val m err;
         EvPut a] (Ok err).

(** Line 150, [reflect.ValueOf(res).Elem().Set( *vM)], on the memory [m]
    that [Decode] left: the variables after it, or [None] when it panics. *)
Definition commit (res : iface) (vM : addr) (m : memory) : option (gmap addr cell) :=
  v ← reflect.Elem (reflect.ValueOf res);
  x ← slots m !! vM;
  reflect.Set_ v x (vars m).

(** The call of [Set] line 150 gets to make. *)
Definition commit_calls (res : iface) (vM : addr) (m : memory) : list event :=
  match reflect.Elem (reflect.ValueOf res), slots m !! vM with
  | Some v, Some x => [EvSet v x (bool_decide (is_Some (reflect.Set_ v x (vars m))))]
  | _, _ => []
  end.

(** The pass [UnmarshalExtJSONWithRes] makes: as [pipeline] while a step
    fails; after a [Decode] that returns nil, the commit into [res], and nil
    or a panic as the commit goes. *)
Inductive pipeline_capture (a : addr) (vr : ValueReader) (vM : addr) (val res : iface)
  : list event → result (option error) → Prop :=
  | capture_failed t e :
      pipeline a vr (capture_context vM) val t (Ok (Some e)) →
      pipeline_capture a vr vM val res t (Ok (Some e))
  | capture_committed m vs :
      commit res vM m = Some vs →
      pipeline_capture a vr vM val res
        ([EvGet a; EvReset a vr None; EvSetContext a (capture_context vM) None;
          EvDecode a val m None] ++ commit_calls res vM m ++ [EvPut a]) (Ok None)
  | capture_panicked m :
      commit res vM m = None →
      pipeline_capture a vr vM val res
        ([EvGet a; EvReset a vr None; EvSetContext a (capture_context vM) None;
          EvDecode a val m None] ++ commit_calls res vM m ++ [EvPut a]) Panic.

(** The calls on [decPool]. *)
Definition is_pool_call (e : event) : bool :=
  match e with
  | EvGet _ | EvPut _ => true
  | _ => false
  end.

(** An argument that is nil or not a pointer. *)
Definition nil_or_not_pointer (i : iface) : Prop :=
  i = INil ∨ (∃ t v, i = IVal t v) ∨ i = IPtr None.

(** What a call of a binary-format function with context [dc] does: the
    reader is built, then one pass. *)
Definition binary_dispatch (data : list Byte.byte) (dc : DecodeContext) (val : iface)
    (w : world) (run : result (option error) * world) : Prop :=
  ∃ a t,
    calls w run.2 = EvNewBSONDocumentReader data :: t ∧
    pipeline a (NewBSONDocumentReader data) dc val t run.1.

(** What a call of an extended-JSON function with context [dc] does: the
    construction error and nothing else, or the reader and one pass. *)
Definition extjson_dispatch (data : list Byte.byte) (canonical : bool)
    (dc : DecodeContext) (val : iface)
    (w : world) (run : result (option error) * world) : Prop :=
  match NewExtJSONValueReader data canonical with
  | inr e =>
      calls w run.2 = [EvNewExtJSONValueReader data canonical (Some e)] ∧
      run.1 = Ok (Some e)
  | inl vr =>
      ∃ a t,
        calls w run.2 = EvNewExtJSONValueReader data canonical None :: t ∧
        pipeline a vr dc val t run.1
  end.

(** The same for [UnmarshalExtJSONWithRes], whose pass ends in the commit. *)
Definition capture_dispatch (data : list Byte.byte) (canonical : bool)
    (val res : iface)
    (w : world) (run : result (option error) * world) : Prop :=
  match NewExtJSONValueReader data canonical with
  | inr e =>
      calls w run.2 = [EvNewExtJSONValueReader data canonical (Some e)] ∧
      run.1 = Ok (Some e)
  | inl vr =>
      ∃ a t,
        calls w run.2 = EvNewExtJSONValueReader data canonical None :: t ∧
        pipeline_capture a vr (fresh (dom (slots (mem w)))) val res t run.1
  end.

(** A call leaves the pool balanced: no Decoder stays checked out, and
    either the pool was not called, or it was called twice, a [Get] and,
    last of all calls, the [Put] of the Decoder that [Get] gave out, which
    is then the first of the free list. *)
Definition pool_balanced (w w' : world) : Prop :=
  held w' = held w ∧
  ((List.filter is_pool_call (calls w w') = [] ∧ pool w' = pool w) ∨
   (∃ a d,
      List.filter is_pool_call (calls w w') = [EvGet a; EvPut a] ∧
      last (calls w w') = Some (EvPut a) ∧
      held w !! a = None ∧
      pool w' = d :: (checkout (pool w)).2)).

(** The error [e] is the one a [Reset], a [SetContext] or a [Decode] among
    the calls [t] returned. *)
Definition raised_by_decoder (t : list event) (e : error) : Prop :=
  (∃ a vr, EvReset a vr (Some e) ∈ t) ∨
  (∃ a dc, EvSetContext a dc (Some e) ∈ t) ∨
  (∃ a val m, EvDecode a val m (Some e) ∈ t).

(** ** What the further properties speak of *)


(** [Reset] and [SetContext] leave nothing of a Decoder's former state:
    whatever Decoder they are called on, they return the same errors and,
    when both return nil, the same Decoder. *)
Definition rebinds : Prop :=
  ∀ (d d' : Decoder) (vr : ValueReader) (dc : DecodeContext),
    (Reset d vr).2 = (Reset d' vr).2 ∧
    ((Reset d vr).2 = None →
     (SetContext (Reset d vr).1 dc).2 = (SetContext (Reset d' vr).1 dc).2 ∧
     ((SetContext (Reset d vr).1 dc).2 = None →
      (SetContext (Reset d vr).1 dc).1 = (SetContext (Reset d' vr).1 dc).1)).

(** The world [w] once line 138 has allocated the capture slot. *)
Definition with_slot (w : world) : world :=
  set_mem
    (Memory (vars (mem w))
       (<[fresh (dom (slots (mem w))) := reflect.Zero]> (slots (mem w))))
    w.

End Shapes.

(** * Collaborators that store no capture

    An implementation of [Externals] whose readers are always built and
    whose Decoder has no state: every step returns nil and [Decode] leaves
    memory as it is, the capture slot included.  It stands for a [Decode]
    that fills the destination by other means than the decode functions that
    store the capture (the file's comment warns of custom unmarshalers), and
    serves as an example of such collaborators. *)

Module Inert.

Definition externals : Externals :=
  Build_Externals unit unit tt unit unit
    (λ _, tt) (λ _ _, inl tt) tt (λ _, None)
    (λ d _, (d, None)) (λ d _, (d, None)) (λ d _ m, (d, m, None)).

(** A world with one variable, a [primitive.M], and nothing else. *)
Definition world_with_map : @world externals :=
  World (Memory {[ 0 := Cell TM (VM []) ]} ∅) ∅ [] [].

End Inert.

(** * Theorems *)

(** Membership in a list of calls that is written out, case by case. *)
Ltac elem_of_calls H :=
  repeat match type of H with
         | _ ∈ _ :: _ => apply elem_of_cons in H as [H|H]; [try discriminate H|]
         | _ ∈ [] => by apply elem_of_nil in H
         | _ ∈ _ ++ _ => apply elem_of_app in H as [H|H]
         end.

(** ** What each function does, step by step *)

Section Runs.

Context {E : Externals}.

Lemma held_fresh (h : gmap addr Decoder) : h !! fresh (dom h) = None.
Proof. apply not_elem_of_dom, is_fresh. Qed.

Lemma calls_after w m d p t : calls w (after w m d p t) = t.
Proof. unfold calls, after; cbn. by rewrite drop_app_length. Qed.

Lemma calls_log w e : calls w (log e w) = [e].
Proof. destruct w. unfold calls, log; cbn. by rewrite drop_app_length. Qed.

Lemma unmarshalFromReader_run dc vr val w :
  let a := fresh (dom (held w)) in
  let '(d0, p) := checkout (pool w) in
  let '(d1, e1) := Reset d0 vr in
  let '(d2, e2) := SetContext d1 dc in
  let '(d3, m3, e3) := Decode d2 val (mem w) in
  unmarshalFromReader dc vr val w =
    match e1 with
    | Some _ => (Ok e1, after w (mem w) d1 p [EvGet a; EvReset a vr e1; EvPut a])
    | None =>
        match e2 with
        | Some _ =>
            (Ok e2, after w (mem w) d2 p
                      [EvGet a; EvReset a vr None; EvSetContext a dc e2; EvPut a])
        | None =>
            (Ok e3, after w m3 d3 p
                      [EvGet a; EvReset a vr None; EvSetContext a dc None;
                       EvDecode a val m3 e3; EvPut a])
        end
    end.
Proof.
  destruct w as [m h pl t]. cbn [held pool mem].
  set (a := fresh (dom h)).
  destruct (checkout pl) as [d0 p] eqn:Hc.
  destruct (Reset d0 vr) as [d1 e1] eqn:H1.
  destruct (SetContext d1 dc) as [d2 e2] eqn:H2.
  destruct (Decode d2 val m) as [[d3 m3] e3] eqn:H3.
  assert (Hf : h !! a = None) by apply held_fresh.
  unfold unmarshalFromReader, bind, defer, decPool_Get.
  cbn [held pool mem trace log set_pool set_held set_mem]. fold a. rewrite Hc.
  unfold Decoder_Reset at 1. cbn [held pool mem trace log set_pool set_held set_mem].
  rewrite lookup_insert_eq, H1, insert_insert_eq.
  destruct e1 as [e|].
  { unfold ret, decPool_Put, after.
    cbn [held pool mem trace log set_pool set_held set_mem].
    rewrite lookup_insert_eq, delete_insert_id by done. by rewrite <- !app_assoc. }
  unfold Decoder_SetContext at 1.
  cbn [held pool mem trace log set_pool set_held set_mem].
  rewrite lookup_insert_eq, H2, insert_insert_eq.
  destruct e2 as [e|].
  { unfold ret, decPool_Put, after.
    cbn [held pool mem trace log set_pool set_held set_mem].
    rewrite lookup_insert_eq, delete_insert_id by done. by rewrite <- !app_assoc. }
  unfold Decoder_Decode, decPool_Put, after.
  cbn [held pool mem trace log set_pool set_held set_mem].
  rewrite lookup_insert_eq, H3, insert_insert_eq.
  cbn [held pool mem trace log set_pool set_held set_mem].
  rewrite lookup_insert_eq, delete_insert_id by done. by rewrite <- !app_assoc.
Qed.

Lemma UnmarshalExtJSONWithRes_run data canonical val res w :
  let a := fresh (dom (held w)) in
  let vM := fresh (dom (slots (mem w))) in
  let m1 := Memory (vars (mem w)) (<[vM := reflect.Zero]> (slots (mem w))) in
  let c := EvNewExtJSONValueReader data canonical in
  match NewExtJSONValueReader data canonical with
  | inr e =>
      UnmarshalExtJSONWithRes data canonical val res w = (Ok (Some e), log (c (Some e)) w)
  | inl vr =>
      let '(d0, p) := checkout (pool w) in
      let '(d1, e1) := Reset d0 vr in
      let '(d2, e2) := SetContext d1 (capture_context vM) in
      let '(d3, m3, e3) := Decode d2 val m1 in
      let steps :=
        [c None; EvGet a; EvReset a vr None; EvSetContext a (capture_context vM) None;
         EvDecode a val m3 e3] in
      UnmarshalExtJSONWithRes data canonical val res w =
        match e1 with
        | Some _ =>
            (Ok e1, after w (mem w) d1 p [c None; EvGet a; EvReset a vr e1; EvPut a])
        | None =>
            match e2 with
            | Some _ =>
                (Ok e2, after w m1 d2 p
                          [c None; EvGet a; EvReset a vr None;
                           EvSetContext a (capture_context vM) e2; EvPut a])
            | None =>
                match e3 with
                | Some _ => (Ok e3, after w m3 d3 p (steps ++ [EvPut a]))
                | None =>
                    match commit res vM m3 with
                    | Some vs =>
                        (Ok None, after w (Memory vs (slots m3)) d3 p
                                    (steps ++ commit_calls res vM m3 ++ [EvPut a]))
                    | None =>
                        (Panic, after w m3 d3 p
                                  (steps ++ commit_calls res vM m3 ++ [EvPut a]))
                    end
                end
            end
        end
  end.
Proof.
  destruct w as [m h pl t]. cbn [held pool mem].
  set (a := fresh (dom h)). set (vM := fresh (dom (slots m))).
  set (m1 := Memory (vars m) (<[vM := reflect.Zero]> (slots m))).
  set (c := EvNewExtJSONValueReader data canonical).
  unfold UnmarshalExtJSONWithRes, bind at 1, bsonrw_NewExtJSONValueReader.
  destruct (NewExtJSONValueReader data canonical) as [vr|e] eqn:Hn;
    cbn [err_of]; [|done].
  destruct (checkout pl) as [d0 p] eqn:Hc.
  destruct (Reset d0 vr) as [d1 e1] eqn:H1.
  destruct (SetContext d1 (capture_context vM)) as [d2 e2] eqn:H2.
  destruct (Decode d2 val m1) as [[d3 m3] e3] eqn:H3.
  assert (Hf : h !! a = None) by apply held_fresh.
  unfold bind, defer, decPool_Get.
  cbn [held pool mem trace log set_pool set_held set_mem]. fold a. rewrite Hc.
  unfold Decoder_Reset at 1. cbn [held pool mem trace log set_pool set_held set_mem].
  rewrite lookup_insert_eq, H1, insert_insert_eq.
  destruct e1 as [e|].
  { unfold ret, decPool_Put, after.
    cbn [held pool mem trace log set_pool set_held set_mem].
    rewrite lookup_insert_eq, delete_insert_id by done. by rewrite <- !app_assoc. }
  unfold new_Value, Decoder_SetContext at 1.
  cbn [held pool mem trace log set_pool set_held set_mem vars slots].
  fold vM. fold m1. unfold capture_context in H2.
  rewrite lookup_insert_eq, H2, insert_insert_eq.
  destruct e2 as [e|].
  { unfold ret, decPool_Put, after.
    cbn [held pool mem trace log set_pool set_held set_mem].
    rewrite lookup_insert_eq, delete_insert_id by done. by rewrite <- !app_assoc. }
  unfold Decoder_Decode at 1.
  cbn [held pool mem trace log set_pool set_held set_mem].
  rewrite lookup_insert_eq, H3, insert_insert_eq.
  destruct e3 as [e|].
  { unfold ret, decPool_Put, after.
    cbn [held pool mem trace log set_pool set_held set_mem].
    rewrite lookup_insert_eq, delete_insert_id by done. by rewrite <- !app_assoc. }
  unfold commit, commit_calls, reflect_Elem, load_Value, reflect_Set, ret,
    decPool_Put, after.
  destruct (reflect.Elem (reflect.ValueOf res)) as [v|];
    cbn [held pool mem trace log set_pool set_held set_mem vars slots mbind option_bind].
  2:{ rewrite lookup_insert_eq, delete_insert_id by done. by rewrite <- !app_assoc. }
  destruct (slots m3 !! vM) as [x|];
    cbn [held pool mem trace log set_pool set_held set_mem vars slots mbind option_bind].
  2:{ rewrite lookup_insert_eq, delete_insert_id by done. by rewrite <- !app_assoc. }
  destruct (reflect.Set_ v x (vars m3)) as [vs|];
    cbn [held pool mem trace log set_pool set_held set_mem vars slots].
  - rewrite lookup_insert_eq, delete_insert_id by done.
    rewrite bool_decide_eq_true_2 by eauto. by rewrite <- !app_assoc.
  - rewrite lookup_insert_eq, delete_insert_id by done.
    rewrite bool_decide_eq_false_2 by (by intros [? ?]). by rewrite <- !app_assoc.
Qed.

End Runs.

(** ** The dispatch functions *)

Section Claims.

Context {E : Externals}.

Lemma calls_after_log w e m d p t : calls w (after (log e w) m d p t) = e :: t.
Proof.
  destruct w. unfold calls, after, log; cbn. by rewrite <- app_assoc, drop_app_length.
Qed.

(** One pass, whatever the steps return: the calls are a [pipeline], the
    Decoder is back on the pool and nothing stays checked out. *)
Lemma unmarshalFromReader_pipeline dc vr val w :
  ∃ t m d,
    (unmarshalFromReader dc vr val w).2 = after w m d (checkout (pool w)).2 t ∧
    pipeline (fresh (dom (held w))) vr dc val t (unmarshalFromReader dc vr val w).1 ∧
    (m = mem w ∨ ∃ err, EvDecode (fresh (dom (held w))) val m err ∈ t).
Proof.
  pose proof (unmarshalFromReader_run dc vr val w) as H. cbv zeta in H.
  destruct (checkout (pool w)) as [d0 p].
  destruct (Reset d0 vr) as [d1 [e1|]];
    destruct (SetContext d1 dc) as [d2 [e2|]];
    destruct (Decode d2 val (mem w)) as [[d3 m3] e3];
    rewrite H; cbn; eexists _, _, _; (split; [reflexivity|]);
    (split; [constructor|]); try (by left).
  all: right; exists e3; set_solver.
Qed.

Lemma binary_run dc data val w :
  binary_dispatch data dc val w
    (unmarshalFromReader dc (NewBSONDocumentReader data) val
       (log (EvNewBSONDocumentReader data) w)).
Proof.
  destruct (unmarshalFromReader_pipeline dc (NewBSONDocumentReader data) val
              (log (EvNewBSONDocumentReader data) w)) as (t & m & d & Hw & Hp & _).
  eexists _, t. rewrite Hw. split; [apply calls_after_log | exact Hp].
Qed.

Lemma extjson_run dc data canonical val w :
  extjson_dispatch data canonical dc val w
    (UnmarshalExtJSONWithContext dc data canonical val w).
Proof.
  unfold extjson_dispatch, UnmarshalExtJSONWithContext, bind,
    bsonrw_NewExtJSONValueReader.
  destruct (NewExtJSONValueReader data canonical) as [vr|e]; cbn.
  - destruct (unmarshalFromReader_pipeline dc vr val
                (log (EvNewExtJSONValueReader data canonical None) w))
      as (t & m & d & Hw & Hp & _).
    eexists _, t. rewrite Hw. split; [apply calls_after_log | exact Hp].
  - by rewrite calls_log.
Qed.

Lemma capture_run data canonical val res w :
  capture_dispatch data canonical val res w
    (UnmarshalExtJSONWithRes data canonical val res w).
Proof.
  pose proof (UnmarshalExtJSONWithRes_run data canonical val res w) as H.
  cbv zeta in H. unfold capture_dispatch.
  destruct (NewExtJSONValueReader data canonical) as [vr|e].
  2:{ rewrite H; cbn. by rewrite calls_log. }
  destruct (checkout (pool w)) as [d0 p].
  destruct (Reset d0 vr) as [d1 [e1|]];
    destruct (SetContext d1 _) as [d2 [e2|]];
    destruct (Decode d2 val _) as [[d3 m3] [e3|]];
    try (rewrite H; cbn; rewrite calls_after; eexists _, _;
         split; [reflexivity|]; do 2 constructor).
  destruct (commit res _ m3) as [vs|] eqn:Hc;
    rewrite H; cbn; rewrite calls_after; eexists _, _; (split; [reflexivity|]).
  - by eapply capture_committed.
  - by eapply capture_panicked.
Qed.

(** C1, as the code has it.  Every public decode operation builds the reader
    for its format and then makes one pass through a pooled Decoder: [Get],
    [Reset], [SetContext], [Decode], [Put].  The first error (of the
    construction or of a step) is what the call returns, no later step runs
    but the release, and when no step fails the call returns what [Decode]
    returned, nil.  [UnmarshalExtJSONWithRes] differs after a [Decode] that
    returned nil: it then commits the capture into [res], before the release,
    and returns nil or panics as the commit goes. *)
Theorem dispatch_sequence (r : registry) (dc : DecodeContext) (data : list Byte.byte)
    (canonical : bool) (val res : iface) (w : world) :
  binary_dispatch data (registry_context DefaultRegistry) val w (Unmarshal data val w) ∧
  binary_dispatch data (registry_context r) val w (UnmarshalWithRegistry r data val w) ∧
  binary_dispatch data dc val w (UnmarshalWithContext dc data val w) ∧
  extjson_dispatch data canonical (registry_context DefaultRegistry) val w
    (UnmarshalExtJSON data canonical val w) ∧
  extjson_dispatch data canonical (registry_context r) val w
    (UnmarshalExtJSONWithRegistry r data canonical val w) ∧
  extjson_dispatch data canonical dc val w
    (UnmarshalExtJSONWithContext dc data canonical val w) ∧
  capture_dispatch data canonical val res w
    (UnmarshalExtJSONWithRes data canonical val res w).
Proof.
  repeat split.
  - apply binary_run.
  - apply binary_run.
  - apply binary_run.
  - apply (extjson_run (registry_context DefaultRegistry)).
  - apply (extjson_run (registry_context r)).
  - apply extjson_run.
  - apply capture_run.
Qed.


(** C5.  When the extended-JSON reader cannot be built, each of the four
    extended-JSON operations returns the construction error at once: the
    construction is the only call made, so no Decoder is acquired and no
    decode attempted, and memory (the destination, and the capture
    destination of [UnmarshalExtJSONWithRes]), the pool and the Decoders
    checked out are as before the call. *)
Theorem construction_error_returned (r : registry) (dc : DecodeContext)
    (data : list Byte.byte) (canonical : bool) (val res : iface) (w : world)
    (e : error) :
  NewExtJSONValueReader data canonical = inr e →
  let w' := log (EvNewExtJSONValueReader data canonical (Some e)) w in
  UnmarshalExtJSON data canonical val w = (Ok (Some e), w') ∧
  UnmarshalExtJSONWithRegistry r data canonical val w = (Ok (Some e), w') ∧
  UnmarshalExtJSONWithContext dc data canonical val w = (Ok (Some e), w') ∧
  UnmarshalExtJSONWithRes data canonical val res w = (Ok (Some e), w') ∧
  calls w w' = [EvNewExtJSONValueReader data canonical (Some e)] ∧
  mem w' = mem w ∧ pool w' = pool w ∧ held w' = held w.
Proof.
  intros He w'.
  unfold UnmarshalExtJSON, UnmarshalExtJSONWithRegistry,
    UnmarshalExtJSONWithContext, UnmarshalExtJSONWithRes, bind,
    bsonrw_NewExtJSONValueReader, ret.
  rewrite He. cbn [err_of]. repeat split; try apply calls_log.
  all: subst w'; by destruct w.
Qed.

Lemma pipeline_pool_calls a vr dc val t r :
  pipeline a vr dc val t r →
  List.filter is_pool_call t = [EvGet a; EvPut a] ∧ last t = Some (EvPut a).
Proof. by destruct 1. Qed.

Lemma capture_pool_calls a vr vM val res t r :
  pipeline_capture a vr vM val res t r →
  List.filter is_pool_call t = [EvGet a; EvPut a] ∧ last t = Some (EvPut a).
Proof.
  destruct 1 as [t e Hp|m vs _|m _]; [by eapply pipeline_pool_calls|..].
  all: unfold commit_calls;
    destruct (reflect.Elem (reflect.ValueOf res)), (slots m !! vM); done.
Qed.

Lemma balanced_after w c m d t :
  is_pool_call c = false →
  List.filter is_pool_call t
    = [EvGet (fresh (dom (held w))); EvPut (fresh (dom (held w)))] ∧
  last t = Some (EvPut (fresh (dom (held w)))) →
  pool_balanced w (after (log c w) m d (checkout (pool w)).2 t).
Proof.
  intros Hc [Hf Hl]. split; [by destruct w|]. right.
  exists (fresh (dom (held w))), d.
  rewrite calls_after_log. cbn [List.filter]. rewrite Hc, last_cons, Hl.
  split; [done|]. split; [done|]. split; [apply held_fresh|by destruct w].
Qed.

Lemma balanced_log w c : is_pool_call c = false → pool_balanced w (log c w).
Proof.
  intros Hc. split; [by destruct w|]. left.
  rewrite calls_log. cbn. rewrite Hc. by destruct w.
Qed.

Lemma unmarshalFromReader_balanced dc vr val w c :
  is_pool_call c = false →
  pool_balanced w (unmarshalFromReader dc vr val (log c w)).2.
Proof.
  intros Hc.
  destruct (unmarshalFromReader_pipeline dc vr val (log c w))
    as (t & m & d & Hw & Hp & _).
  rewrite Hw. apply pipeline_pool_calls in Hp.
  replace (held (log c w)) with (held w) in Hp by by destruct w.
  replace (pool (log c w)) with (pool w) by by destruct w.
  pose proof (balanced_after w c m d t Hc Hp) as Hb.
  by destruct w.
Qed.

Lemma after_log w c m d p t : after (log c w) m d p t = after w m d p (c :: t).
Proof. destruct w. unfold after, log; cbn. by rewrite <- app_assoc. Qed.

(** The pass of [UnmarshalExtJSONWithRes], with the world it leaves. *)
Lemma capture_after data canonical val res w vr :
  NewExtJSONValueReader data canonical = inl vr →
  ∃ t m d,
    (UnmarshalExtJSONWithRes data canonical val res w).2
      = after (log (EvNewExtJSONValueReader data canonical None) w)
          m d (checkout (pool w)).2 t ∧
    pipeline_capture (fresh (dom (held w))) vr (fresh (dom (slots (mem w)))) val res
      t (UnmarshalExtJSONWithRes data canonical val res w).1.
Proof.
  intros Hn.
  pose proof (UnmarshalExtJSONWithRes_run data canonical val res w) as H.
  cbv zeta in H. rewrite Hn in H.
  destruct (checkout (pool w)) as [d0 p].
  destruct (Reset d0 vr) as [d1 [e1|]];
    destruct (SetContext d1 _) as [d2 [e2|]];
    destruct (Decode d2 val _) as [[d3 m3] [e3|]];
    try (rewrite H; cbn; eexists _, _, _; rewrite after_log;
         split; [reflexivity|]; do 2 constructor).
  destruct (commit res _ m3) as [vs|] eqn:Hc;
    rewrite H; cbn; eexists _, _, _; rewrite after_log; (split; [reflexivity|]).
  - by eapply capture_committed.
  - by eapply capture_panicked.
Qed.

(** C6.  Whatever the steps return, a call leaves the pool balanced: if it
    took a Decoder out of the pool it put that Decoder back, once, as the last
    thing it did, and no Decoder is left checked out.  This holds on the paths
    where [Reset], [SetContext] or [Decode] fails, where all succeed, and
    where the commit of [UnmarshalExtJSONWithRes] panics. *)
Theorem decoder_released (r : registry) (dc : DecodeContext)
    (data : list Byte.byte) (canonical : bool) (val res : iface) (w : world) :
  pool_balanced w (Unmarshal data val w).2 ∧
  pool_balanced w (UnmarshalWithRegistry r data val w).2 ∧
  pool_balanced w (UnmarshalWithContext dc data val w).2 ∧
  pool_balanced w (UnmarshalExtJSON data canonical val w).2 ∧
  pool_balanced w (UnmarshalExtJSONWithRegistry r data canonical val w).2 ∧
  pool_balanced w (UnmarshalExtJSONWithContext dc data canonical val w).2 ∧
  pool_balanced w (UnmarshalExtJSONWithRes data canonical val res w).2.
Proof.
  assert (Hext : ∀ dc', pool_balanced w
            (UnmarshalExtJSONWithContext dc' data canonical val w).2).
  { intros dc'. unfold UnmarshalExtJSONWithContext, bind,
      bsonrw_NewExtJSONValueReader.
    destruct (NewExtJSONValueReader data canonical) as [ejvr|e]; cbn [err_of].
    - by apply unmarshalFromReader_balanced.
    - by apply balanced_log. }
  assert (Hbin : ∀ dc', pool_balanced w (UnmarshalWithContext dc' data val w).2)
    by (intros dc'; by apply unmarshalFromReader_balanced).
  split; [apply (Hbin (registry_context DefaultRegistry))|].
  split; [apply (Hbin (registry_context r))|].
  split; [apply Hbin|].
  split; [apply (Hext (registry_context DefaultRegistry))|].
  split; [apply (Hext (registry_context r))|].
  split; [apply Hext|].
  destruct (NewExtJSONValueReader data canonical) as [ejvr|e] eqn:Hn.
  - destruct (capture_after data canonical val res w ejvr Hn)
      as (t & m & d & Hw & Hp).
    rewrite Hw. apply balanced_after; [done|]. by eapply capture_pool_calls.
  - pose proof (UnmarshalExtJSONWithRes_run data canonical val res w) as H.
    cbv zeta in H. rewrite Hn in H. rewrite H. by apply balanced_log.
Qed.


Lemma pipeline_contexts a vr dc val t r a' dc' e :
  pipeline a vr dc val t r → EvSetContext a' dc' e ∈ t → dc' = dc.
Proof. destruct 1; intros Hin; elem_of_calls Hin; by injection Hin. Qed.


(** C7.  [Unmarshal] is [UnmarshalWithRegistry] at [DefaultRegistry], and
    [UnmarshalExtJSON] is [UnmarshalExtJSONWithRegistry] at [DefaultRegistry]:
    the same result and the same world, calls included.  Every context they
    hand to [SetContext] holds [DefaultRegistry], no capture slot, and
    dual-output off. *)
Theorem default_registry_delegation (data : list Byte.byte) (canonical : bool)
    (val : iface) (w : world) :
  Unmarshal data val w = UnmarshalWithRegistry DefaultRegistry data val w ∧
  UnmarshalExtJSON data canonical val w
    = UnmarshalExtJSONWithRegistry DefaultRegistry data canonical val w ∧
  (∀ a dc e,
     EvSetContext a dc e ∈ calls w (Unmarshal data val w).2 ∨
     EvSetContext a dc e ∈ calls w (UnmarshalExtJSON data canonical val w).2 →
     bsoncodec.Registry dc = DefaultRegistry ∧
     bsoncodec.ValM dc = None ∧
     bsoncodec.SetVal dc = false).
Proof.
  split; [done|]. split; [done|]. intros a dc e.
  assert (dc = registry_context DefaultRegistry → 
          bsoncodec.Registry dc = DefaultRegistry ∧
          bsoncodec.ValM dc = None ∧ bsoncodec.SetVal dc = false) as Hdc
    by by intros ->.
  intros [Hin|Hin]; apply Hdc.
  - destruct (binary_run (registry_context DefaultRegistry) data val w)
      as (a' & t & Hc & Hp).
    change (unmarshalFromReader _ _ _ _) with (Unmarshal data val w) in Hc.
    rewrite Hc in Hin. apply elem_of_cons in Hin as [Hin|Hin]; [done|].
    by eapply pipeline_contexts.
  - pose proof (extjson_run (registry_context DefaultRegistry) data canonical val w)
      as Hx.
    change (UnmarshalExtJSONWithContext _ _ _ _ _)
      with (UnmarshalExtJSON data canonical val w) in Hx.
    unfold extjson_dispatch in Hx.
    destruct (NewExtJSONValueReader data canonical) as [vr|e0].
    + destruct Hx as (a' & t & Hc & Hp). rewrite Hc in Hin.
      apply elem_of_cons in Hin as [Hin|Hin]; [done|].
      by eapply pipeline_contexts.
    + destruct Hx as [Hc _]. rewrite Hc in Hin. elem_of_calls Hin.
Qed.

Lemma pipeline_raised a vr dc val t r e :
  pipeline a vr dc val t r → r = Ok (Some e) → raised_by_decoder t e.
Proof.
  destruct 1 as [e0|e0|m err]; intros [= ->].
  - left. exists a, vr. apply list_elem_of_In. cbn. tauto.
  - right; left. exists a, dc. apply list_elem_of_In. cbn. tauto.
  - right; right. exists a, val, m. apply list_elem_of_In. cbn. tauto.
Qed.

Lemma raised_cons c t e : raised_by_decoder t e → raised_by_decoder (c :: t) e.
Proof.
  intros [(a & vr & H)|[(a & dc & H)|(a & val & m & H)]];
    [left|right; left|right; right]; repeat eexists; apply elem_of_cons; eauto.
Qed.

(** C8.  The binary-format operations cannot fail at reader construction:
    [NewBSONDocumentReader] returns a reader and no error, so each of them
    always goes on to take a Decoder from the pool, never panics, and an
    error it returns is one that [Reset], [SetContext] or [Decode]
    returned. *)
Theorem binary_construction_total (r : registry) (dc : DecodeContext)
    (data : list Byte.byte) (val : iface) (w : world) :
  let always_built (run : result (option error) * world) :=
    (∃ a t, calls w run.2 = EvNewBSONDocumentReader data :: EvGet a :: t) ∧
    (∃ err, run.1 = Ok err) ∧
    (∀ e, run.1 = Ok (Some e) → raised_by_decoder (calls w run.2) e) in
  always_built (Unmarshal data val w) ∧
  always_built (UnmarshalWithRegistry r data val w) ∧
  always_built (UnmarshalWithContext dc data val w).
Proof.
  intros always_built.
  assert (H : ∀ dc', always_built
            (unmarshalFromReader dc' (NewBSONDocumentReader data) val
               (log (EvNewBSONDocumentReader data) w))).
  { intros dc'. destruct (binary_run dc' data val w) as (a & t & Hc & Hp).
    unfold always_built. rewrite Hc. split; [|split].
    - destruct Hp; eauto.
    - destruct Hp; eauto.
    - intros e He. apply raised_cons. by eapply pipeline_raised. }
  split; [apply H|]. split; apply H.
Qed.


(** ** The commit of [UnmarshalExtJSONWithRes] *)

Lemma commit_nil_or_not_pointer res vM m :
  nil_or_not_pointer res → commit res vM m = None.
Proof.
  intros [->|[(t & v & ->)| ->]]; unfold commit; cbn; [done..|].
  by destruct (slots m !! vM).
Qed.

Lemma commit_not_assignable p c x tx vx vM m :
  vars m !! p = Some c →
  slots m !! vM = Some x →
  reflect.contents (vars m) x = Some (tx, vx) →
  AssignableTo tx (ctype c) = false →
  commit (IPtr (Some p)) vM m = None.
Proof.
  intros Hp Hx Hc Ha. unfold commit; cbn. rewrite Hx; cbn.
  rewrite Hp; cbn. rewrite Hc; cbn. by rewrite Ha.
Qed.



(** Every way a call of [UnmarshalExtJSONWithRes] can go: what it returns,
    the calls it makes and the memory it leaves. *)
Lemma capture_cases data canonical val res w :
  let run := UnmarshalExtJSONWithRes data canonical val res w in
  let t := calls w run.2 in
  let vM := fresh (dom (slots (mem w))) in
  let m1 := Memory (vars (mem w)) (<[vM := reflect.Zero]> (slots (mem w))) in
  let c := EvNewExtJSONValueReader data canonical in
  (∃ e, run.1 = Ok (Some e) ∧ t = [c (Some e)] ∧ mem run.2 = mem w) ∨
  (∃ vr a e, run.1 = Ok (Some e) ∧ mem run.2 = mem w ∧
     t = [c None; EvGet a; EvReset a vr (Some e); EvPut a]) ∨
  (∃ vr a e, run.1 = Ok (Some e) ∧ mem run.2 = m1 ∧
     t = [c None; EvGet a; EvReset a vr None;
          EvSetContext a (capture_context vM) (Some e); EvPut a]) ∨
  (∃ vr a e m, run.1 = Ok (Some e) ∧ mem run.2 = m ∧
     t = [c None; EvGet a; EvReset a vr None;
          EvSetContext a (capture_context vM) None; EvDecode a val m (Some e);
          EvPut a]) ∨
  (∃ vr a m,
     t = [c None; EvGet a; EvReset a vr None;
          EvSetContext a (capture_context vM) None; EvDecode a val m None]
         ++ commit_calls res vM m ++ [EvPut a] ∧
     match commit res vM m with
     | Some vs => run.1 = Ok None ∧ mem run.2 = Memory vs (slots m)
     | None => run.1 = Panic ∧ mem run.2 = m
     end).
Proof.
  intros run t vM m1 c. subst run t.
  pose proof (UnmarshalExtJSONWithRes_run data canonical val res w) as H.
  cbv zeta in H. fold vM in H. fold m1 in H. fold c in H.
  destruct (NewExtJSONValueReader data canonical) as [vr|e].
  2:{ left. exists e. rewrite H; cbn. rewrite calls_log. by destruct w. }
  right.
  destruct (checkout (pool w)) as [d0 p].
  destruct (Reset d0 vr) as [d1 [e1|]].
  { left. exists vr, (fresh (dom (held w))), e1.
    destruct (SetContext d1 _) as [d2 e2], (Decode d2 val _) as [[d3 m3] e3].
    rewrite H; cbn. by rewrite calls_after. }
  right.
  destruct (SetContext d1 _) as [d2 [e2|]].
  { left. exists vr, (fresh (dom (held w))), e2.
    destruct (Decode d2 val _) as [[d3 m3] e3].
    rewrite H; cbn. by rewrite calls_after. }
  right.
  destruct (Decode d2 val _) as [[d3 m3] [e3|]].
  { left. exists vr, (fresh (dom (held w))), e3, m3.
    rewrite H; cbn. by rewrite calls_after. }
  right. exists vr, (fresh (dom (held w))), m3.
  destruct (commit res vM m3) as [vs|]; rewrite H; cbn; by rewrite calls_after.
Qed.

(** C10.  [UnmarshalExtJSONWithRes] does not validate [res].  Once [Decode]
    has returned nil the call no longer returns an error: it commits, and a
    commit that cannot be made panics.  It cannot be made when [res] is nil
    or not a pointer, and when [res] points to a variable whose type the
    captured value is not assignable to; the panic leaves memory as [Decode]
    left it. *)
Theorem commit_not_validated (data : list Byte.byte) (canonical : bool)
    (val res : iface) (w : world) (a : addr) (m : memory) :
  let run := UnmarshalExtJSONWithRes data canonical val res w in
  let vM := fresh (dom (slots (mem w))) in
  EvDecode a val m None ∈ calls w run.2 →
  (run.1 = Ok None ∨ run.1 = Panic) ∧
  (nil_or_not_pointer res → run.1 = Panic) ∧
  (∀ p c x tx vx,
     res = IPtr (Some p) →
     vars m !! p = Some c →
     slots m !! vM = Some x →
     reflect.contents (vars m) x = Some (tx, vx) →
     AssignableTo tx (ctype c) = false →
     run.1 = Panic) ∧
  (run.1 = Panic → mem run.2 = m ∧ commit res vM m = None).
Proof.
  intros run vM Hin. subst vM. set (vM := fresh (dom (slots (mem w)))) in *.
  destruct (capture_cases data canonical val res w)
    as [(e & _ & Ht & _)|[(vr & a' & e & _ & _ & Ht)|[(vr & a' & e & _ & _ & Ht)|
        [(vr & a' & e & m' & _ & _ & Ht)|(vr & a' & m' & Ht & Hc)]]]];
    fold run vM in Ht; rewrite Ht in Hin; try (by elem_of_calls Hin).
  fold run vM in Hc.
  assert (m' = m) as ->.
  { elem_of_calls Hin; [by injection Hin|].
    unfold commit_calls in Hin.
    destruct (reflect.Elem (reflect.ValueOf res)), (slots m' !! vM);
      by elem_of_calls Hin. }
  destruct (commit res vM m) as [vs|] eqn:Hcommit; destruct Hc as [Hr Hm].
  - split; [by left|]. split; [|split].
    + intros Hres. by rewrite commit_nil_or_not_pointer in Hcommit.
    + intros p c x tx vx -> Hp Hx Hcont Ha.
      by rewrite (commit_not_assignable p c x tx vx) in Hcommit.
    + by rewrite Hr.
  - split; [by right|]. by repeat split.
Qed.


(** ** What a call leaves in memory *)



End Claims.

(** * The spec's collaborators behind the dispatch functions *)

Section OnTheSpecModel.

#[local] Existing Instance SpecModel.externals.

Example scenario_input_bytes :
  SpecModel.scenario_input =
    [x7b; x22; x61; x22; x3a; x20; x22; x31; x32; x33; x22; x2c; x20;
     x22; x62; x22; x3a; x20; x7b; x22; x62; x22; x3a; x20; x31; x32; x33;
     x7d; x7d]%byte.
Proof. reflexivity. Qed.

Example scenario_tokens :
  SpecModel.tokenize_extjson SpecModel.scenario_input
  = Some (SpecModel.NDoc [("a"%string, SpecModel.NString "123");
                ("b"%string, SpecModel.NDoc [("b"%string, SpecModel.NInt 123)])]).
Proof. reflexivity. Qed.


(** ** Invalid destinations *)







(** ** Concrete calls *)

(** C1 does not hold of [UnmarshalExtJSONWithRes].  On scenario 6's input
    and destination with a nil [res], the reader is built and [Reset],
    [SetContext] and [Decode] all return nil, yet the call does not return
    nil: line 150 panics.  No context makes the call one of the passes C1
    describes. *)
Lemma capture_panics_after_full_success :
  let val := IPtr (Some 0) in
  let run :=
    UnmarshalExtJSONWithRes SpecModel.scenario_input true val INil
      SpecModel.scenario_world in
  run.1 = Panic ∧
  (∃ ejvr m,
     calls SpecModel.scenario_world run.2
     = [EvNewExtJSONValueReader SpecModel.scenario_input true None;
        EvGet 0;
        EvReset 0 ejvr None;
        EvSetContext 0 (capture_context 0) None;
        EvDecode 0 val m None;
        EvPut 0]) ∧
  (∀ dc,
     ¬ extjson_dispatch SpecModel.scenario_input true dc val
         SpecModel.scenario_world run).
Proof.
  intros val run. split; [reflexivity|]. split.
  - eexists _, _. reflexivity.
  - intros dc H. unfold extjson_dispatch in H.
    change (NewExtJSONValueReader SpecModel.scenario_input true)
      with (SpecModel.NewExtJSONValueReader SpecModel.scenario_input true) in H.
    unfold SpecModel.NewExtJSONValueReader in H.
    rewrite scenario_tokens in H. destruct H as (a & t & _ & Hp).
    change run.1 with (@Panic (option error)) in Hp. inversion Hp.
Qed.



(** The hypothesis of C5 is met by the empty input. *)
Lemma construction_error_returned_witness :
  NewExtJSONValueReader [] false = inr SpecModel.ErrMalformedInput ∧
  UnmarshalExtJSONWithRes [] false (IPtr (Some 0)) (IPtr (Some 1))
    SpecModel.scenario_world
  = (Ok (Some SpecModel.ErrMalformedInput),
     log (EvNewExtJSONValueReader [] false (Some SpecModel.ErrMalformedInput))
       SpecModel.scenario_world).
Proof.
  split; [reflexivity|].
  apply (construction_error_returned (E := SpecModel.externals)
           DefaultRegistry
           (registry_context DefaultRegistry) [] false
           (IPtr (Some 0)) (IPtr (Some 1)) SpecModel.scenario_world
           SpecModel.ErrMalformedInput).
  reflexivity.
Defined.

(** The hypothesis of C10 is met by scenario 6 with a nil [res]. *)
Lemma commit_not_validated_witness :
  let run :=
    UnmarshalExtJSONWithRes SpecModel.scenario_input true (IPtr (Some 0)) INil
      SpecModel.scenario_world in
  EvDecode 0 (IPtr (Some 0)) (mem run.2) None
    ∈ calls SpecModel.scenario_world run.2 ∧
  nil_or_not_pointer INil ∧
  run.1 = Panic.
Proof.
  intros run.
  assert (Hin : EvDecode 0 (IPtr (Some 0)) (mem run.2) None
                  ∈ calls SpecModel.scenario_world run.2).
  { apply list_elem_of_In. do 4 right. left. reflexivity. }
  assert (Hnil : nil_or_not_pointer INil) by (by left).
  split; [exact Hin|]. split; [exact Hnil|].
  exact (proj1 (proj2 (commit_not_validated (E := SpecModel.externals)
                         SpecModel.scenario_input true
                         (IPtr (Some 0)) INil SpecModel.scenario_world 0
                         (mem run.2) Hin)) Hnil).
Defined.


End OnTheSpecModel.

(** * Further properties of the dispatch functions *)

Section Further.

Context {E : Externals}.

(** ** The size of the pool *)







(** ** Where errors come from *)


(** ** The capture function and the context function *)

(** X4.  [UnmarshalExtJSONWithRes] is [UnmarshalExtJSONWithContext], given
    the capture context and started once the capture slot is allocated,
    followed by the commit.  The two return the same errors, leaving the same
    variables and the same pool; where the context function returns nil, the
    capture function returns nil with the variables the commit gives, or
    panics, leaving memory as the context function does, when the commit
    cannot be made. *)
Theorem capture_is_context_then_commit (data : list Byte.byte) (canonical : bool)
    (val res : iface) (w : world) :
  let vM := fresh (dom (slots (mem w))) in
  let plain :=
    UnmarshalExtJSONWithContext (capture_context vM) data canonical val (with_slot w) in
  let run := UnmarshalExtJSONWithRes data canonical val res w in
  pool run.2 = pool plain.2 ∧
  held run.2 = held plain.2 ∧
  match plain.1 with
  | Ok (Some e) => run.1 = Ok (Some e) ∧ vars (mem run.2) = vars (mem plain.2)
  | Ok None =>
      match commit res vM (mem plain.2) with
      | Some vs => run.1 = Ok None ∧ mem run.2 = Memory vs (slots (mem plain.2))
      | None => run.1 = Panic ∧ mem run.2 = mem plain.2
      end
  | Panic => False
  end.
Proof.
  intros vM plain run. subst plain run.
  pose proof (UnmarshalExtJSONWithRes_run data canonical val res w) as HR.
  cbv zeta in HR. fold vM in HR.
  unfold UnmarshalExtJSONWithContext, bind, bsonrw_NewExtJSONValueReader.
  revert HR.
  destruct (NewExtJSONValueReader data canonical) as [ejvr|e]; cbn [err_of];
    intros HR.
  2:{ rewrite HR. cbn. by destruct w. }
  pose proof (unmarshalFromReader_run (capture_context vM) ejvr val
                (log (EvNewExtJSONValueReader data canonical None) (with_slot w)))
    as HC.
  cbv zeta in HC.
  replace (pool (log (EvNewExtJSONValueReader data canonical None) (with_slot w)))
    with (pool w) in HC by by destruct w.
  replace (mem (log (EvNewExtJSONValueReader data canonical None) (with_slot w)))
    with (Memory (vars (mem w)) (<[vM := reflect.Zero]> (slots (mem w)))) in HC
    by by destruct w.
  destruct (checkout (pool w)) as [d0 p].
  destruct (Reset d0 ejvr) as [d1 [e1|]].
  { destruct (SetContext d1 _) as [d2 e2], (Decode d2 val _) as [[d3 m3] e3].
    rewrite HR, HC. cbn. by destruct w. }
  destruct (SetContext d1 _) as [d2 [e2|]].
  { destruct (Decode d2 val _) as [[d3 m3] e3].
    rewrite HR, HC. cbn. by destruct w. }
  destruct (Decode d2 val _) as [[d3 m3] [e3|]].
  { rewrite HR, HC. cbn. by destruct w. }
  destruct (commit res vM m3) as [vs|] eqn:Hcommit; rewrite HR, HC;
    cbn [fst snd]; destruct w; cbn [after mem pool held]; by rewrite Hcommit.
Qed.

(** ** Which Decoder the pool hands out *)

Lemma unmarshalFromReader_isolated dc vr val w w' :
  rebinds →
  mem w = mem w' →
  (unmarshalFromReader dc vr val w).1 = (unmarshalFromReader dc vr val w').1 ∧
  mem (unmarshalFromReader dc vr val w).2 = mem (unmarshalFromReader dc vr val w').2.
Proof.
  intros Hreb Hmem.
  pose proof (unmarshalFromReader_run dc vr val w) as H.
  pose proof (unmarshalFromReader_run dc vr val w') as H'.
  cbv zeta in H, H'. rewrite <- Hmem in H'.
  destruct (checkout (pool w)) as [d0 p], (checkout (pool w')) as [d0' p'].
  pose proof (Hreb d0 d0' vr dc) as Hr.
  destruct (Reset d0 vr) as [d1 e1], (Reset d0' vr) as [d1' e1'].
  cbn [fst snd] in Hr. destruct Hr as [<- Hr].
  destruct (SetContext d1 dc) as [d2 e2], (SetContext d1' dc) as [d2' e2'].
  destruct e1 as [e1|].
  { destruct (Decode d2 val (mem w)) as [[d3 m3] e3],
      (Decode d2' val (mem w)) as [[d3' m3'] e3'].
    rewrite H, H'. cbn. by destruct w, w'. }
  cbn [fst snd] in Hr. destruct (Hr eq_refl) as [<- Hd].
  destruct e2 as [e2|].
  { destruct (Decode d2 val (mem w)) as [[d3 m3] e3],
      (Decode d2' val (mem w)) as [[d3' m3'] e3'].
    rewrite H, H'. cbn. by destruct w, w'. }
  destruct (Hd eq_refl).
  destruct (Decode d2 val (mem w)) as [[d3 m3] e3].
  rewrite H, H'. by destruct w, w'.
Qed.

Lemma log_mem c w w' : mem w = mem w' → mem (log c w) = mem (log c w').
Proof. by destruct w, w'. Qed.

(** X5.  When [Reset] and [SetContext] leave nothing of a Decoder's former
    state, what a call returns and the memory it leaves do not depend on the
    pool: started in two worlds with the same memory, whatever Decoders are
    idle or checked out in each and whatever calls were made before, an
    operation ends the same way in both. *)
Theorem outcome_independent_of_pool (r : registry) (dc : DecodeContext)
    (data : list Byte.byte) (canonical : bool) (val res : iface) (w w' : world) :
  rebinds →
  mem w = mem w' →
  let same (run run' : result (option error) * world) :=
    run.1 = run'.1 ∧ mem run.2 = mem run'.2 in
  same (Unmarshal data val w) (Unmarshal data val w') ∧
  same (UnmarshalWithRegistry r data val w) (UnmarshalWithRegistry r data val w') ∧
  same (UnmarshalWithContext dc data val w) (UnmarshalWithContext dc data val w') ∧
  same (UnmarshalExtJSON data canonical val w)
       (UnmarshalExtJSON data canonical val w') ∧
  same (UnmarshalExtJSONWithRegistry r data canonical val w)
       (UnmarshalExtJSONWithRegistry r data canonical val w') ∧
  same (UnmarshalExtJSONWithContext dc data canonical val w)
       (UnmarshalExtJSONWithContext dc data canonical val w') ∧
  same (UnmarshalExtJSONWithRes data canonical val res w)
       (UnmarshalExtJSONWithRes data canonical val res w').
Proof.
  intros Hreb Hmem same.
  assert (Hbin : ∀ dc', same (UnmarshalWithContext dc' data val w)
                             (UnmarshalWithContext dc' data val w')).
  { intros dc'. apply unmarshalFromReader_isolated; [done|by apply log_mem]. }
  assert (Hext : ∀ dc', same (UnmarshalExtJSONWithContext dc' data canonical val w)
                             (UnmarshalExtJSONWithContext dc' data canonical val w')).
  { intros dc'. unfold UnmarshalExtJSONWithContext, bind,
      bsonrw_NewExtJSONValueReader.
    destruct (NewExtJSONValueReader data canonical) as [ejvr|e]; cbn [err_of].
    - apply unmarshalFromReader_isolated; [done|by apply log_mem].
    - split; [done|by apply log_mem]. }
  split; [apply (Hbin (registry_context DefaultRegistry))|].
  split; [apply (Hbin (registry_context r))|].
  split; [apply Hbin|].
  split; [apply (Hext (registry_context DefaultRegistry))|].
  split; [apply (Hext (registry_context r))|].
  split; [apply Hext|].
  pose proof (UnmarshalExtJSONWithRes_run data canonical val res w) as H.
  pose proof (UnmarshalExtJSONWithRes_run data canonical val res w') as H'.
  cbv zeta in H, H'. rewrite <- Hmem in H'. unfold same.
  revert H H'.
  destruct (NewExtJSONValueReader data canonical) as [ejvr|e]; intros H H'.
  2:{ rewrite H, H'. split; [done|by apply log_mem]. }
  destruct (checkout (pool w)) as [d0 p], (checkout (pool w')) as [d0' p'].
  pose proof (Hreb d0 d0' ejvr
                (capture_context (fresh (dom (slots (mem w)))))) as Hr.
  destruct (Reset d0 ejvr) as [d1 e1], (Reset d0' ejvr) as [d1' e1'].
  cbn [fst snd] in Hr. destruct Hr as [<- Hr].
  destruct (SetContext d1 _) as [d2 e2], (SetContext d1' _) as [d2' e2'].
  destruct e1 as [e1|].
  { destruct (Decode d2 val _) as [[d3 m3] e3],
      (Decode d2' val _) as [[d3' m3'] e3'].
    rewrite H, H'. cbn. by destruct w, w'. }
  cbn [fst snd] in Hr. destruct (Hr eq_refl) as [<- Hd].
  destruct e2 as [e2|].
  { destruct (Decode d2 val _) as [[d3 m3] e3],
      (Decode d2' val _) as [[d3' m3'] e3'].
    rewrite H, H'. cbn. by destruct w, w'. }
  destruct (Hd eq_refl).
  destruct (Decode d2 val _) as [[d3 m3] [e3|]].
  { rewrite H, H'. by destruct w, w'. }
  destruct (commit res _ m3); rewrite H, H'; by destruct w, w'.
Qed.

(** ** What the commit touches *)

Lemma commit_zero res vM m :
  slots m !! vM = Some reflect.Zero → commit res vM m = None.
Proof.
  intros Hz. unfold commit. rewrite Hz.
  destruct (reflect.Elem (reflect.ValueOf res)) as [[| | |p]|]; cbn; try done.
  by destruct (vars m !! p).
Qed.

(** The run of [UnmarshalExtJSONWithRes] whose [Decode] returned nil,
    leaving memory [m]: it ends as the commit on [m] goes. *)
Lemma capture_decoded data canonical val res w a m :
  let run := UnmarshalExtJSONWithRes data canonical val res w in
  EvDecode a val m None ∈ calls w run.2 →
  match commit res (fresh (dom (slots (mem w)))) m with
  | Some vs => run.1 = Ok None ∧ mem run.2 = Memory vs (slots m)
  | None => run.1 = Panic ∧ mem run.2 = m
  end.
Proof.
  intros run Hin. set (vM := fresh (dom (slots (mem w)))) in *.
  destruct (capture_cases data canonical val res w)
    as [(e & _ & Ht & _)|[(vr & a' & e & _ & _ & Ht)|[(vr & a' & e & _ & _ & Ht)|
        [(vr & a' & e & m' & _ & _ & Ht)|(vr & a' & m' & Ht & Hc)]]]];
    fold run vM in Ht; rewrite Ht in Hin; try (by elem_of_calls Hin).
  fold run vM in Hc.
  assert (m' = m) as ->; [|done].
  elem_of_calls Hin; [by injection Hin|].
  unfold commit_calls in Hin.
  destruct (reflect.Elem (reflect.ValueOf res)), (slots m' !! vM);
    by elem_of_calls Hin.
Qed.


(** X7.  The capture slot is allocated as the zero Value, and [Set] panics
    on it: when [Decode] returns nil and has stored no capture in the slot,
    [UnmarshalExtJSONWithRes] panics whatever [res] is, a valid destination
    included, and leaves memory as [Decode] left it. *)
Theorem empty_capture_panics (data : list Byte.byte) (canonical : bool)
    (val res : iface) (w : world) (a : addr) (m : memory) :
  let run := UnmarshalExtJSONWithRes data canonical val res w in
  EvDecode a val m None ∈ calls w run.2 →
  slots m !! fresh (dom (slots (mem w))) = Some reflect.Zero →
  run.1 = Panic ∧ mem run.2 = m.
Proof.
  intros run Hin Hz.
  pose proof (capture_decoded data canonical val res w a m Hin) as H.
  by rewrite (commit_zero _ _ _ Hz) in H.
Qed.

End Further.

(** ** The hypotheses are met *)

Section FurtherWitnesses.

(** The spec's Decoder is rebound by [Reset] and [SetContext]. *)
Lemma SpecModel_rebinds : rebinds (E := SpecModel.externals).
Proof.
  intros d d' rd c. split; [done|]. intros _.
  change (@Reset SpecModel.externals) with SpecModel.Reset.
  change (@SetContext SpecModel.externals) with SpecModel.SetContext.
  unfold SpecModel.Reset, SpecModel.SetContext. cbn [fst snd].
  match goal with |- context [if ?b then _ else _] => destruct b end;
    cbn; (split; [done|]); [intros [=]|done].
Qed.

(** The hypotheses of X5 are met by the spec's collaborators and two worlds
    that differ in their pools: one empty, one holding a used Decoder. *)
Lemma outcome_independent_of_pool_witness :
  let used : @Decoder SpecModel.externals :=
    {| SpecModel.vr := Some SpecModel.Spent;
       SpecModel.dc := capture_context (E := SpecModel.externals) 5 |} in
  let w := SpecModel.scenario_world in
  let w' : @world SpecModel.externals := World (mem w) ∅ [used] [] in
  rebinds (E := SpecModel.externals) ∧
  mem w = mem w' ∧
  (UnmarshalExtJSON SpecModel.scenario_input false (IPtr (Some 0)) w).1
  = (UnmarshalExtJSON SpecModel.scenario_input false (IPtr (Some 0)) w').1.
Proof.
  intros used w w'.
  split; [exact SpecModel_rebinds|]. split; [reflexivity|].
  exact (proj1 (proj1 (proj2 (proj2 (proj2
           (outcome_independent_of_pool (E := SpecModel.externals)
              DefaultRegistry (registry_context DefaultRegistry)
              SpecModel.scenario_input false (IPtr (Some 0)) INil w w'
              SpecModel_rebinds eq_refl)))))).
Defined.


(** The hypotheses of X7 are met by collaborators that store no capture,
    with [res] a pointer to a [primitive.M]. *)
Lemma empty_capture_panics_witness :
  let m := Memory {[ 0 := Cell TM (VM []) ]} {[ 0 := reflect.Zero ]} in
  let run :=
    UnmarshalExtJSONWithRes (E := Inert.externals) [] true
      (IPtr (Some 0)) (IPtr (Some 0)) Inert.world_with_map in
  EvDecode 0 (IPtr (Some 0)) m None ∈ calls Inert.world_with_map run.2 ∧
  slots m !! fresh (dom (slots (mem Inert.world_with_map))) = Some reflect.Zero ∧
  run.1 = Panic.
Proof.
  intros m run.
  assert (Hin : EvDecode 0 (IPtr (Some 0)) m None
                  ∈ calls Inert.world_with_map run.2).
  { apply list_elem_of_In. do 4 right. left. reflexivity. }
  assert (Hz : slots m !! fresh (dom (slots (mem Inert.world_with_map)))
               = Some reflect.Zero) by reflexivity.
  split; [exact Hin|]. split; [exact Hz|].
  exact (proj1 (empty_capture_panics (E := Inert.externals) [] true
                  (IPtr (Some 0)) (IPtr (Some 0)) Inert.world_with_map 0 m
                  Hin Hz)).
Defined.

End FurtherWitnesses.
